(** * Chunk-and-embed notebook (CH3-01-Creating_EmbeddedChunks.py)

    A shallow embedding of the two pandas UDFs of the notebook,
    [read_as_chunk] and [get_embedding], and of the Python fragments they
    are written with.  The serving endpoint, the document parser and the
    sentence splitter are collaborators outside the notebook: they appear
    as section variables, and every call to them is made visible, either
    in a trace of events (the endpoint) or in the process state (the
    global tokenizer of llama_index). *)

From Stdlib Require Import Strings.Byte Strings.Ascii.
From stdpp Require Import gmap strings list.

(** ** Python fragments *)

Module Py.

(** [range(start, stop, step)] for a positive [step], as the loop Python
    runs: emit [i] while [i < stop], then advance by [step].  The fuel is
    an upper bound on the number of iterations; [range_loop_unfold] below
    shows it is never exhausted when [step] is positive.  (Python raises
    ValueError for [step = 0]; the notebook only uses the constant 150.) *)
Fixpoint range_loop (fuel i stop step : nat) : list nat :=
  match fuel with
  | 0 => []
  | S fuel' =>
      if i <? stop then i :: range_loop fuel' (i + step) stop step else []
  end.

Definition range (start stop step : nat) : list nat :=
  range_loop (stop - start) start stop step.

(** [s.iloc[i:j]] on a Series, and [l[i:j]] on a list, for non-negative
    bounds: positions [i], ..., [j-1], clamped to the length. *)
Definition iloc {A : Type} (s : list A) (i j : nat) : list A :=
  take (j - i) (drop i s).

(** [Series.tolist()] and [pd.Series(list)]: a Series is its list of values. *)
Definition tolist {A : Type} (s : list A) : list A := s.
Definition Series {A : Type} (l : list A) : list A := l.

(** Rounding-up division, the [ceil(a / b)] of the specification. *)
Definition ceil_div (a b : nat) : nat := (a + b - 1) / b.

End Py.

(** ** The batched embedder *)

Section Embedder.

(** What a response entry stores under a key (the float array under
    ["embedding"]); the code never inspects it. *)
Context {Value : Type}.
(** The state of the serving endpoint, as far as the client observes it. *)
Context {World : Type}.
(** What [deploy_client.predict] raises when a request fails. *)
Context {RemoteExn : Type}.

(** A reply in the shape [get_embeddings] reads: [response.data] is a list
    of dicts.  (On a reply of another shape, one with no [data] or with
    an entry that is not a dict, line 159 raises before any embedding is
    read; such replies are not values of this type.) *)
Record response := Response { data : list (gmap string Value) }.

(** [deploy_client.predict(endpoint=..., inputs={"input": batch})]. *)
Variable predict :
  string -> list string -> World -> (RemoteExn + response) * World.

(** Exceptions that can leave [get_embedding]. *)
Inductive exn :=
| KeyError (key : string)
| PredictError (e : RemoteExn).

(** What crosses the boundary to the endpoint. *)
Inductive event :=
| Request (endpoint : string) (input : list string)
| Reply (r : response)
| Failure (e : RemoteExn).

(** Computations: the endpoint's state is threaded, an exception aborts,
    and the events of the run are collected in order. *)
Definition M (A : Type) : Type := World -> (exn + A) * World * list event.

#[export] Instance M_ret : MRet M := fun A a w => (inr a, w, []).

#[export] Instance M_bind : MBind M := fun A B f m w =>
  match m w with
  | (inl e, w', tr) => (inl e, w', tr)
  | (inr a, w', tr) =>
      match f a w' with
      | (r, w'', tr') => (r, w'', tr ++ tr')
      end
  end.

Definition raise {A : Type} (e : exn) : M A := fun w => (inl e, w, []).

(** One synchronous call: the request goes out, and control comes back
    with the reply or with the exception. *)
Definition call_predict (endpoint : string) (input : list string)
  : M response := fun w =>
  match predict endpoint input w with
  | (inl e, w') => (inl (PredictError e), w', [Request endpoint input; Failure e])
  | (inr r, w') => (inr r, w', [Request endpoint input; Reply r])
  end.

(** [e[key]] on a dict. *)
Definition getitem (e : gmap string Value) (key : string) : M Value :=
  match e !! key with
  | Some v => mret v
  | None => raise (KeyError key)
  end.

(** [[f(e) for e in l]], left to right. *)
Fixpoint list_comp {A B : Type} (f : A -> M B) (l : list A) : M (list B) :=
  match l with
  | [] => mret []
  | a :: l' => b ← f a; bs ← list_comp f l'; mret (b :: bs)
  end.

Definition endpoint_name : string := "databricks-bge-large-en"%string.

(** [get_embeddings(batch)], the inner function. *)
Definition get_embeddings (batch : list string) : M (list Value) :=
  response ← call_predict endpoint_name batch;
  list_comp (fun e => getitem e "embedding"%string) (data response).

Definition max_batch_size : nat := 150.

(** [[contents.iloc[i:i + max_batch_size]
      for i in range(0, len(contents), max_batch_size)]]. *)
Definition batches_of (contents : list string) : list (list string) :=
  (fun i => Py.iloc contents i (i + max_batch_size))
    <$> Py.range 0 (length contents) max_batch_size.

(** [for batch in batches: all_embeddings += get_embeddings(batch.tolist())]. *)
Fixpoint for_batches (batches : list (list string))
    (all_embeddings : list Value) : M (list Value) :=
  match batches with
  | [] => mret all_embeddings
  | batch :: rest =>
      vs ← get_embeddings (Py.tolist batch);
      for_batches rest (all_embeddings ++ vs)
  end.

(** [get_embedding(contents)], from the point where [deploy_client] has
    been obtained. *)
Definition get_embedding (contents : list string) : M (list Value) :=
  let batches := batches_of contents in
  all_embeddings ← for_batches batches [];
  mret (Py.Series all_embeddings).

(** *** Observations on a run *)

Definition result {A} (r : (exn + A) * World * list event) : exn + A := r.1.1.
Definition final {A} (r : (exn + A) * World * list event) : World := r.1.2.
Definition trace {A} (r : (exn + A) * World * list event) : list event := r.2.

(** The inputs of the requests of a trace, in the order they were issued. *)
Definition requests (tr : list event) : list (list string) :=
  omap (fun ev => match ev with Request _ b => Some b | _ => None end) tr.

(** The replies of a trace, in the order they were received. *)
Definition replies (tr : list event) : list response :=
  omap (fun ev => match ev with Reply r => Some r | _ => None end) tr.

Definition failures (tr : list event) : list RemoteExn :=
  omap (fun ev => match ev with Failure e => Some e | _ => None end) tr.

(** A trace is sequential when no request is issued while another one is
    awaiting its completion, and none is pending when the run ends. *)
Fixpoint sequential_from (pending : bool) (tr : list event) : bool :=
  match tr with
  | [] => negb pending
  | Request _ _ :: tr' => negb pending && sequential_from true tr'
  | Reply _ :: tr' | Failure _ :: tr' => pending && sequential_from false tr'
  end.

Definition sequential (tr : list event) : bool := sequential_from false tr.

(** How a computation ended: with an exception, or normally. *)
Definition outcome {A} (r : exn + A) : option exn :=
  match r with inl e => Some e | inr _ => None end.

(** The traces the loop over [batches] can leave, with the way the loop
    ended: every iteration issues the request for its batch and gets the
    completion; the loop goes on after a reply whose entries all carry an
    embedding, and ends at the first exception. *)
Inductive loop_trace : list (list string) -> list event -> option exn -> Prop :=
| loop_done :
    loop_trace [] [] None
| loop_next b bs r tr o :
    loop_trace bs tr o ->
    loop_trace (b :: bs) (Request endpoint_name b :: Reply r :: tr) o
| loop_key_error b bs r :
    Exists (fun e => e !! "embedding"%string = None) (data r) ->
    loop_trace (b :: bs) [Request endpoint_name b; Reply r]
      (Some (KeyError "embedding"%string))
| loop_failure b bs e :
    loop_trace (b :: bs) [Request endpoint_name b; Failure e]
      (Some (PredictError e)).

End Embedder.

Arguments response : clear implicits.
Arguments exn : clear implicits.
Arguments event : clear implicits.

(** ** The chunker *)

(** The element at position [j] of the [i]-th Series of a stream of
    Series, if there is one. *)
Definition at_position {A : Type} (xs : list (list A)) (i j : nat) : option A :=
  xs !! i ≫= fun x => x !! j.

Section Chunker.

(** What the document parser or the sentence splitter raises. *)
Context {LibExn : Type}.
(** A node produced by the splitter; the notebook only reads its [text]. *)
Context {Node : Type}.
(** Process-wide state other than llama_index's global tokenizer. *)
Context {Other : Type}.

(** A tokenizer is known by where it comes from:
    [AutoTokenizer.from_pretrained(name)], or the tiktoken encoding that
    llama_index falls back to when no global tokenizer is set. *)
Inductive tokenizer :=
| Pretrained (name : string)
| Tiktoken (model : string).

(** What [AutoTokenizer.from_pretrained(name)] returns when the tokenizer
    loads. *)
Definition from_pretrained (name : string) : tokenizer := Pretrained name.

(** The interpreter state a UDF invocation runs in:
    [llama_index.global_tokenizer], and everything else. *)
Record process := Process {
  global_tokenizer : option tokenizer;
  other : Other
}.

(** Modelled from the spec: [set_global_tokenizer] is llama_index's, not
    the notebook's.  The spec has the source set "a process-wide
    tokenizer before chunking": the call assigns
    [llama_index.global_tokenizer]. *)
Definition set_global_tokenizer (t : tokenizer) (p : process) : process :=
  {| global_tokenizer := Some t; other := other p |}.

(** Modelled from the spec: [get_tokenizer] is llama_index's, not the
    notebook's.  It reads the process-wide tokenizer the spec speaks of,
    and installs llama_index's tiktoken default first when none is set. *)
Definition get_tokenizer (p : process) : tokenizer * process :=
  match global_tokenizer p with
  | Some t => (t, p)
  | None =>
      let t := Tiktoken "gpt-3.5-turbo"%string in
      (t, set_global_tokenizer t p)
  end.

(** A [SentenceSplitter] instance: its configuration and the tokenizer it
    captured when it was built. *)
Record splitter := Splitter {
  chunk_size : nat;
  chunk_overlap : nat;
  splitter_tokenizer : tokenizer
}.

(** Modelled from the spec: the constructor
    [SentenceSplitter(chunk_size=..., chunk_overlap=...)] is llama_index's,
    not the notebook's.  The notebook passes it no tokenizer, and the spec
    has chunking depend on the process-wide one ("cross-call
    interference"): the splitter captures [get_tokenizer()]. *)
Definition SentenceSplitter (size overlap : nat) (p : process)
  : splitter * process :=
  let '(t, p') := get_tokenizer p in
  ({| chunk_size := size; chunk_overlap := overlap; splitter_tokenizer := t |}, p').

(** [Document(text=txt)]. *)
Record document := Document { doc_text : string }.

(** [extract_doc_text] of mlia_utils.rag_funcs: bytes to plain text, or
    an exception for a file it cannot parse. *)
Variable extract_doc_text : list byte -> LibExn + string.
(** [splitter.get_nodes_from_documents(docs)] of llama_index: the nodes
    it cuts the documents into, as a function of the splitter and the
    documents. *)
Variable get_nodes_from_documents : splitter -> list document -> LibExn + list Node.
(** [n.text]. *)
Variable text : Node -> string.

(** [extract_and_split(b)], the inner function; [sp] is the [splitter] of
    the enclosing scope. *)
Definition extract_and_split (sp : splitter) (b : list byte)
  : LibExn + list string :=
  match extract_doc_text b with
  | inl e => inl e
  | inr txt =>
      match get_nodes_from_documents sp [Document txt] with
      | inl e => inl e
      | inr nodes => inr (text <$> nodes)
      end
  end.

(** [x.apply(f)] on a Series: [f] on every element in order; the first
    exception ends it. *)
Fixpoint apply {A B : Type} (f : A -> LibExn + B) (x : list A)
  : LibExn + list B :=
  match x with
  | [] => inr []
  | a :: x' =>
      match f a with
      | inl e => inl e
      | inr b =>
          match apply f x' with
          | inl e => inl e
          | inr bs => inr (b :: bs)
          end
      end
  end.

(** A generator driven to its end: what it yielded, and the exception
    that ended it, if one did. *)
Record generated (A : Type) := Generated {
  yielded : list A;
  raised : option LibExn
}.
Arguments Generated {A} _ _.
Arguments yielded {A} _.
Arguments raised {A} _.

(** [for x in batch_iter: yield x.apply(f)]. *)
Fixpoint for_yield (f : list byte -> LibExn + list string)
    (batch_iter : list (list (list byte))) : generated (list (list string)) :=
  match batch_iter with
  | [] => Generated [] None
  | x :: rest =>
      match apply f x with
      | inl e => Generated [] (Some e)
      | inr y =>
          let g := for_yield f rest in
          Generated (y :: yielded g) (raised g)
      end
  end.

Definition llama_tokenizer_name : string := "hf-internal-testing/llama-tokenizer"%string.

(** [read_as_chunk(batch_iter)], consumed to the end by its caller, in an
    invocation in which the tokenizer loads and the splitter gets built;
    [read_as_chunk_call] below has the other invocations too. *)
Definition read_as_chunk (batch_iter : list (list (list byte))) (p : process)
  : generated (list (list string)) * process :=
  let p1 := set_global_tokenizer (from_pretrained llama_tokenizer_name) p in
  let '(sp, p2) := SentenceSplitter 500 50 p1 in
  (for_yield (extract_and_split sp) batch_iter, p2).

(** The splitter every invocation ends up working with. *)
Definition llama_splitter : splitter :=
  {| chunk_size := 500; chunk_overlap := 50;
     splitter_tokenizer := Pretrained llama_tokenizer_name |}.

End Chunker.

Arguments process : clear implicits.
Arguments generated : clear implicits.
Arguments Generated {LibExn A} _ _.
Arguments yielded {LibExn A} _.
Arguments raised {LibExn A} _.

(** *** An invocation with its set-up *)

Section ChunkerCall.

Context {LibExn Node Other : Type}.
Variable extract_doc_text : list byte -> LibExn + string.
Variable get_nodes_from_documents : splitter -> list document -> LibExn + list Node.
Variable text : Node -> string.

(** [AutoTokenizer.from_pretrained(name)] reads the tokenizer from the hub
    or from the local cache: the exception it raises when it cannot. *)
Variable from_pretrained_raises : string -> option LibExn.

(** What building the [SentenceSplitter] does besides capturing the
    tokenizer: it gets its sentence tokenizer ready, which can change the
    rest of the process state and can raise. *)
Variable splitter_setup : Other -> Other * option LibExn.

(** [read_as_chunk(batch_iter)], consumed to the end by its caller: lines
    105 to 109 run first, in that order, then the loop. *)
Definition read_as_chunk_call (batch_iter : list (list (list byte)))
    (p : process Other) : generated LibExn (list (list string)) * process Other :=
  match from_pretrained_raises llama_tokenizer_name with
  | Some e => (Generated [] (Some e), p)
  | None =>
      let p1 := set_global_tokenizer (from_pretrained llama_tokenizer_name) p in
      let '(sp, p2) := SentenceSplitter 500 50 p1 in
      let '(o, failure) := splitter_setup (other p2) in
      let p3 := {| global_tokenizer := global_tokenizer p2; other := o |} in
      match failure with
      | Some e => (Generated [] (Some e), p3)
      | None =>
          (for_yield
             (extract_and_split extract_doc_text get_nodes_from_documents text sp)
             batch_iter,
           p3)
      end
  end.

End ChunkerCall.

(** ** The reset cell *)

Module Reset.

(** [bool(s)] on a [str]: false for the empty string, true for any other. *)
Definition bool_of_str (s : string) : bool :=
  match s with
  | EmptyString => false
  | String _ _ => true
  end.

(** The choices of the dropdown widget ['Reset'], and its default. *)
Definition choices : list string := ["True"%string; "False"%string].
Definition defaultValue : string := "True"%string.

(** [sql("DROP TABLE IF EXISTS t")] on the tables of the current schema,
    known by their names. *)
Definition drop_table_if_exists (t : string) (tables : gset string) : gset string :=
  tables ∖ {[ t ]}.

Definition table_name : string := "pdf_raw_text"%string.

(** The cell, where [reset] is what [dbutils.widgets.get('Reset')] returns. *)
Definition reset_cell (reset : string) (tables : gset string) : gset string :=
  if bool_of_str reset then
    drop_table_if_exists "pdf_documentation_text"%string
      (drop_table_if_exists table_name tables)
  else tables.

End Reset.

(** ** Sample collaborators

    Small endpoints, parsers and splitters to run the notebook on. *)

Module Sample.

(** An endpoint that embeds a string as its length and counts the calls
    it served. *)
Definition length_endpoint (endpoint : string) (input : list string)
    (calls : nat) : (string + response nat) * nat :=
  (inr (Response ((fun s => {[ "embedding"%string := String.length s ]}) <$> input)),
   S calls).

(** The same endpoint, out of service from call number [limit] on. *)
Definition flaky_endpoint (limit : nat) (endpoint : string)
    (input : list string) (calls : nat) : (string + response nat) * nat :=
  if calls <? limit then length_endpoint endpoint input calls
  else (inl "503"%string, S calls).

(** [n] chunks, the [i]-th one of length [i mod 7]. *)
Definition chunks (n : nat) : list string :=
  (fun i => String.string_of_list_ascii (replicate (i mod 7) "a"%char)) <$> seq 0 n.

(** A parser that reads the bytes as text and rejects an empty file. *)
Definition parse_bytes (b : list byte) : string + string :=
  match b with
  | [] => inl "empty document"%string
  | _ => inr (String.string_of_list_byte b)
  end.

(** A splitter that returns each document whole, one node per document. *)
Definition whole_documents (sp : splitter) (docs : list document)
  : string + list string :=
  inr (doc_text <$> docs).

(** A process in which no global tokenizer was ever set, and one in
    which some other notebook cell has set one. *)
Definition fresh_process : process unit :=
  {| global_tokenizer := None; other := tt |}.

Definition used_process : process unit :=
  {| global_tokenizer := Some (Tiktoken "gpt-4"%string); other := tt |}.

(** Three small documents. *)
Definition doc_hi : list byte := [x68; x69].
Definition doc_ok : list byte := [x6f; x6b].
Definition doc_no : list byte := [x6e; x6f].

(** A hub that serves every tokenizer, and one that cannot be reached. *)
Definition hub_reachable (name : string) : option string := None.
Definition hub_unreachable (name : string) : option string := Some "offline"%string.

(** A splitter set-up that adds a directory to a search path, and a
    process whose remaining state is that search path. *)
Definition add_cache_dir (paths : list string) : list string * option string :=
  (paths ++ ["llama_index"%string], None).

Definition path_process : process (list string) :=
  {| global_tokenizer := Some (Tiktoken "gpt-4"%string);
     other := ["nltk_data"%string] |}.

(** An endpoint that answers every request with no entry at all. *)
Definition silent_endpoint (endpoint : string) (input : list string)
    (calls : nat) : (string + response nat) * nat :=
  (inr (Response []), S calls).

(** An endpoint that files the vectors under another key. *)
Definition misnamed_endpoint (endpoint : string) (input : list string)
    (calls : nat) : (string + response nat) * nat :=
  (inr (Response ((fun s => {[ "vector"%string := String.length s ]}) <$> input)),
   S calls).

End Sample.

(** * Facts *)

(** ** Python fragments *)

Section PyFacts.

Lemma ceil_div_0 s : 0 < s -> Py.ceil_div 0 s = 0.
Proof.
  intros Hs. unfold Py.ceil_div. apply Nat.div_small. lia.
Qed.

Lemma ceil_div_step a s :
  0 < s -> 0 < a -> Py.ceil_div a s = S (Py.ceil_div (a - s) s).
Proof.
  intros Hs Ha. unfold Py.ceil_div.
  destruct (decide (a <= s)) as [Hle|Hgt].
  - replace (a - s) with 0 by lia.
    replace (a + s - 1) with (1 * s + (a - 1)) by lia.
    rewrite Nat.div_add_l by lia.
    rewrite (Nat.div_small (a - 1)) by lia.
    rewrite (Nat.div_small (0 + s - 1)) by lia. reflexivity.
  - replace (a + s - 1) with (1 * s + (a - s + s - 1)) by lia.
    rewrite Nat.div_add_l by lia. reflexivity.
Qed.

(** [ceil_div a s] is the least number of [s]-sized slots that hold [a]. *)
Lemma ceil_div_least a s :
  0 < s ->
  a <= Py.ceil_div a s * s /\ forall k, a <= k * s -> Py.ceil_div a s <= k.
Proof.
  intros Hs. unfold Py.ceil_div.
  pose proof (Nat.div_mod_eq (a + s - 1) s) as E.
  pose proof (Nat.mod_upper_bound (a + s - 1) s ltac:(lia)) as B.
  split; [nia|].
  intros k Hk. apply Nat.lt_succ_r, Nat.Div0.div_lt_upper_bound. nia.
Qed.

Lemma ceil_div_pos a s : 0 < s -> 0 < a -> 0 < Py.ceil_div a s.
Proof. intros Hs Ha. rewrite ceil_div_step by done. lia. Qed.

(** The fuel [range] starts its loop with is never exhausted: the loop
    stops because [i] reached [stop]. *)
Lemma range_loop_unfold fuel i stop step :
  0 < step -> stop - i <= fuel ->
  Py.range_loop fuel i stop step
  = (fun k => i + k * step) <$> seq 0 (Py.ceil_div (stop - i) step).
Proof.
  intros Hs. revert i. induction fuel as [|fuel IH]; intros i Hf; simpl.
  - replace (stop - i) with 0 by lia. by rewrite ceil_div_0.
  - destruct (Nat.ltb_spec i stop) as [Hlt|Hge].
    + rewrite (ceil_div_step (stop - i)) by lia.
      rewrite <- cons_seq, fmap_cons. f_equal; [lia|].
      rewrite IH by lia. rewrite <- fmap_S_seq, <- list_fmap_compose.
      replace (stop - (i + step)) with (stop - i - step) by lia.
      apply list_fmap_ext. intros _ k _. simpl. lia.
    + replace (stop - i) with 0 by lia. by rewrite ceil_div_0.
Qed.

Lemma range_0_unfold stop step :
  0 < step ->
  Py.range 0 stop step = (fun k => k * step) <$> seq 0 (Py.ceil_div stop step).
Proof.
  intros Hs. unfold Py.range. rewrite range_loop_unfold by lia.
  by rewrite Nat.sub_0_r.
Qed.

End PyFacts.

(** ** Batching *)

Section BatchFacts.

Implicit Types contents : list string.

(** The [k]-th batch is the [k]-th window of 150 positions. *)
Lemma batches_of_unfold contents :
  batches_of contents
  = (fun k => take max_batch_size (drop (k * max_batch_size) contents))
      <$> seq 0 (Py.ceil_div (length contents) max_batch_size).
Proof.
  unfold batches_of. rewrite range_0_unfold by (unfold max_batch_size; lia).
  rewrite <- list_fmap_compose. apply list_fmap_ext. intros _ k _. simpl.
  unfold Py.iloc. f_equal. lia.
Qed.

Lemma batches_of_length contents :
  length (batches_of contents) = Py.ceil_div (length contents) max_batch_size.
Proof. by rewrite batches_of_unfold, length_fmap, length_seq. Qed.

Lemma batches_of_lookup contents k :
  batches_of contents !! k
  = if decide (k < Py.ceil_div (length contents) max_batch_size)
    then Some (take max_batch_size (drop (k * max_batch_size) contents))
    else None.
Proof.
  rewrite batches_of_unfold, list_lookup_fmap. case_decide.
  - by rewrite lookup_seq_lt.
  - by rewrite lookup_seq_ge by lia.
Qed.

Lemma windows_concat {A} (l : list A) s n :
  concat ((fun k => take s (drop (k * s) l)) <$> seq 0 n) = take (n * s) l.
Proof.
  induction n as [|n IH].
  - by rewrite take_0.
  - rewrite seq_S, fmap_app, concat_app, IH. simpl.
    rewrite app_nil_r, take_take_drop. f_equal. lia.
Qed.

(** In a concatenation of lists that all have [s] elements, except that
    the last may have fewer, position [i] is position [i mod s] of list
    number [i / s]. *)
Lemma concat_lookup_uniform {A} (ls : list (list A)) s i :
  0 < s ->
  Forall (fun l => length l <= s) ls ->
  (forall k l, ls !! k = Some l -> S k < length ls -> length l = s) ->
  concat ls !! i = ls !! (i / s) ≫= fun l => l !! (i mod s).
Proof.
  intros Hs Hle. revert i. induction Hle as [|l ls Hl Hle IH]; intros i Hfull.
  - by rewrite !lookup_nil.
  - simpl. destruct (decide (i < s)) as [Hi|Hi].
    + rewrite Nat.div_small, Nat.mod_small by done. simpl.
      destruct (decide (i < length l)).
      * by rewrite lookup_app_l.
      * rewrite lookup_app_r by lia.
        rewrite (lookup_ge_None_2 l) by lia.
        destruct ls as [|l' ls]; [done|].
        specialize (Hfull 0 l eq_refl ltac:(simpl; lia)). lia.
    + destruct ls as [|l' ls].
      * simpl. rewrite app_nil_r, lookup_ge_None_2 by lia.
        assert (0 < i / s) by (apply Nat.div_str_pos; lia).
        destruct (i / s) eqn:E; [lia|done].
      * pose proof (Hfull 0 l eq_refl ltac:(simpl; lia)) as Hl'.
        rewrite lookup_app_r by lia. rewrite Hl'.
        rewrite IH.
        2:{ intros k l0 Hk HS. apply (Hfull (S k) l0 Hk). simpl in *. lia. }
        assert (i / s = S ((i - s) / s)) as ->.
        { replace i with ((i - s) + 1 * s) at 1 by lia.
          rewrite Nat.div_add by lia. lia. }
        assert (i mod s = (i - s) mod s) as ->.
        { replace i with ((i - s) + 1 * s) at 1 by lia.
          by rewrite Nat.Div0.mod_add. }
        done.
Qed.

(** Slicing loses nothing, repeats nothing and keeps the order. *)
Lemma batches_of_concat contents : concat (batches_of contents) = contents.
Proof.
  rewrite batches_of_unfold, windows_concat. apply take_ge.
  apply ceil_div_least. unfold max_batch_size. lia.
Qed.

Lemma batches_of_size contents k b :
  batches_of contents !! k = Some b ->
  0 < length b <= max_batch_size
  /\ (S k < length (batches_of contents) -> length b = max_batch_size).
Proof.
  rewrite batches_of_length, batches_of_lookup. case_decide as Hk; [|done].
  intros [= <-]. rewrite length_take, length_drop.
  pose proof (ceil_div_least (length contents) max_batch_size
                ltac:(unfold max_batch_size; lia)) as [_ Hleast].
  unfold max_batch_size in *.
  assert (k * 150 < length contents) as Hlt.
  { destruct (decide (k * 150 < length contents)); [done|].
    specialize (Hleast k ltac:(lia)). lia. }
  split; [lia|]. intros HS.
  assert (S k * 150 < length contents).
  { destruct (decide (S k * 150 < length contents)); [done|].
    specialize (Hleast (S k) ltac:(lia)). lia. }
  lia.
Qed.

End BatchFacts.

(** ** Runs of the embedder *)

Section RunFacts.

Context {Value World RemoteExn : Type}.
Variable predict :
  string -> list string -> World -> (RemoteExn + response Value) * World.

Local Abbreviation embedding_of := (fun e : gmap string Value => getitem (World:=World) (RemoteExn:=RemoteExn) e "embedding"%string).

Lemma getitem_run (e : gmap string Value) (key : string) (w : World) :
  getitem (RemoteExn:=RemoteExn) e key w
  = (match e !! key with Some v => inr v | None => inl (KeyError key) end, w, []).
Proof. unfold getitem. by destruct (e !! key). Qed.

(** Reading the embeddings out of a reply touches neither the endpoint
    nor the trace; it fails exactly when an entry has no ["embedding"]. *)
Lemma list_comp_getitem_run (es : list (gmap string Value)) (w : World) :
  (exists vs, list_comp embedding_of es w = (inr vs, w, [])
              /\ Forall2 (fun e v => e !! "embedding"%string = Some v) es vs)
  \/ (list_comp embedding_of es w = (inl (KeyError "embedding"%string), w, [])
      /\ Exists (fun e => e !! "embedding"%string = None) es).
Proof.
  induction es as [|e es IH]; simpl.
  - left. exists []. split; [done|constructor].
  - unfold mbind, M_bind. rewrite getitem_run.
    destruct (e !! "embedding"%string) as [v|] eqn:He; simpl.
    + destruct IH as [(vs & -> & HF) | [-> HE]]; simpl.
      * left. exists (v :: vs). split; [done|]. by constructor.
      * right. split; [done|]. by apply Exists_cons_tl.
    + right. split; [done|]. by apply Exists_cons_hd.
Qed.

(** The three ways one call of [get_embeddings] can go. *)
Lemma get_embeddings_run (batch : list string) (w : World) :
  (exists e w', predict endpoint_name batch w = (inl e, w')
     /\ get_embeddings predict batch w
        = (inl (PredictError e), w', [Request endpoint_name batch; Failure e]))
  \/ (exists r w', predict endpoint_name batch w = (inr r, w')
     /\ Exists (fun e => e !! "embedding"%string = None) (data r)
     /\ get_embeddings predict batch w
        = (inl (KeyError "embedding"%string), w', [Request endpoint_name batch; Reply r]))
  \/ (exists r w' vs, predict endpoint_name batch w = (inr r, w')
     /\ Forall2 (fun e v => e !! "embedding"%string = Some v) (data r) vs
     /\ get_embeddings predict batch w
        = (inr vs, w', [Request endpoint_name batch; Reply r])).
Proof.
  unfold get_embeddings, mbind, M_bind, call_predict.
  destruct (predict endpoint_name batch w) as [[e|r] w'] eqn:Hp.
  - left. by exists e, w'.
  - right.
    destruct (list_comp_getitem_run (data r) w') as [(vs & -> & HF) | [-> HE]].
    + right. by exists r, w', vs.
    + left. by exists r, w'.
Qed.

(** A run whose result is a value is that value, the final state and the
    trace. *)
Lemma run_returns {A} (r : (exn RemoteExn + A) * World * list (event Value RemoteExn)) a :
  result r = inr a -> r = (inr a, final r, trace r).
Proof. destruct r as [[res w] tr]. unfold result, final, trace. simpl. by intros ->. Qed.

Lemma get_embedding_unfold (contents : list string) (w : World) :
  get_embedding predict contents w
  = for_batches predict (batches_of contents) [] w.
Proof.
  unfold get_embedding, mbind, M_bind, mret, M_ret, Py.Series.
  destruct (for_batches predict (batches_of contents) [] w) as [[[e|vs] w'] tr];
    [done|]. by rewrite app_nil_r.
Qed.

(** Every run of the loop leaves a trace of the shape [loop_trace]. *)
Lemma for_batches_trace (bs : list (list string)) (acc : list Value) (w : World) :
  loop_trace bs (trace (for_batches predict bs acc w))
    (outcome (result (for_batches predict bs acc w))).
Proof.
  revert acc w. induction bs as [|b bs IH]; intros acc w; simpl.
  - constructor.
  - unfold mbind, M_bind, Py.tolist.
    destruct (get_embeddings_run b w)
      as [(e & w' & _ & ->) | [(r & w' & _ & HE & ->) | (r & w' & vs & _ & _ & ->)]].
    + apply loop_failure.
    + by apply loop_key_error.
    + specialize (IH (acc ++ vs) w').
      destruct (for_batches predict bs (acc ++ vs) w') as [[res w''] tr].
      by apply loop_next.
Qed.

(** *** What the shape of a trace implies *)

Lemma loop_trace_sequential bs tr o :
  loop_trace (Value:=Value) (RemoteExn:=RemoteExn) bs tr o -> sequential tr = true.
Proof. induction 1; done. Qed.

Lemma loop_trace_requests_prefix bs tr o :
  loop_trace (Value:=Value) (RemoteExn:=RemoteExn) bs tr o ->
  requests tr `prefix_of` bs.
Proof.
  induction 1; simpl.
  - done.
  - by apply prefix_cons.
  - apply prefix_cons, prefix_nil.
  - apply prefix_cons, prefix_nil.
Qed.

Lemma loop_trace_requests_all bs tr :
  loop_trace (Value:=Value) (RemoteExn:=RemoteExn) bs tr None -> requests tr = bs.
Proof.
  intros H. remember None as o eqn:Ho.
  induction H; simpl; try done. f_equal. auto.
Qed.

Lemma loop_trace_no_failure bs tr :
  loop_trace (Value:=Value) (RemoteExn:=RemoteExn) bs tr None -> failures tr = [].
Proof.
  intros H. remember None as o eqn:Ho.
  induction H; simpl; try done. auto.
Qed.

(** A failure is the last event, comes right after its request, is the
    only one, and is the exception the loop ends with. *)
Lemma loop_trace_failure bs tr o e :
  loop_trace (Value:=Value) (RemoteExn:=RemoteExn) bs tr o ->
  Failure e ∈ tr ->
  o = Some (PredictError e)
  /\ exists tr0 b, tr = tr0 ++ [Request endpoint_name b; Failure e]
       /\ b ∈ bs /\ failures tr0 = []
       /\ requests tr = requests tr0 ++ [b].
Proof.
  induction 1 as [|b bs r tr o H IH|b bs r HE|b bs e']; intros Hin.
  - by apply elem_of_nil in Hin.
  - apply elem_of_cons in Hin as [?|Hin]; [done|].
    apply elem_of_cons in Hin as [?|Hin]; [done|].
    destruct (IH Hin) as (-> & tr0 & b' & -> & Hb' & Hf & Hr).
    split; [done|].
    exists (Request endpoint_name b :: Reply r :: tr0), b'.
    split_and!; [done| by apply elem_of_cons; right | done |].
    simpl. simpl in Hr. by rewrite Hr.
  - apply elem_of_cons in Hin as [?|Hin]; [done|].
    apply elem_of_cons in Hin as [?|Hin]; [done|].
    by apply elem_of_nil in Hin.
  - apply elem_of_cons in Hin as [?|Hin]; [done|].
    apply elem_of_cons in Hin as [[= ->]|Hin]; [|by apply elem_of_nil in Hin].
    split; [done|]. exists [], b.
    split_and!; [done| by apply elem_of_cons; left | done | done].
Qed.

(** The request after the [k]-th one sits right behind the [k]-th reply. *)
Lemma loop_trace_positions bs tr o k b :
  loop_trace (Value:=Value) (RemoteExn:=RemoteExn) bs tr o ->
  requests tr !! S k = Some b ->
  exists r, tr !! (2 * k + 1) = Some (Reply r)
            /\ tr !! (2 * k + 2) = Some (Request endpoint_name b).
Proof.
  intros H. revert k. induction H as [|b0 bs r tr o H IH|b0 bs r HE|b0 bs e'];
    intros k Hk; simpl in Hk; try done.
  destruct k as [|k].
  - exists r. split; [done|]. simpl.
    destruct H; simpl in Hk; by simplify_eq.
  - destruct (IH k Hk) as (r' & H1 & H2). exists r'.
    replace (2 * S k + 1) with (S (S (2 * k + 1))) by lia.
    replace (2 * S k + 2) with (S (S (2 * k + 2))) by lia.
    done.
Qed.

End RunFacts.

(** ** The embedder's contract *)

Section EmbedderContract.

Context {Value World RemoteExn : Type}.
Variable predict :
  string -> list string -> World -> (RemoteExn + response Value) * World.

Implicit Types contents : list string.

Lemma batches_of_Forall_size contents :
  Forall (fun b => 0 < length b <= max_batch_size) (batches_of contents).
Proof.
  apply Forall_lookup. intros k b Hk. by apply batches_of_size in Hk as [? _].
Qed.

Lemma get_embedding_trace contents (w : World) :
  loop_trace (batches_of contents)
    (trace (get_embedding predict contents w))
    (outcome (result (get_embedding predict contents w))).
Proof. rewrite get_embedding_unfold. apply for_batches_trace. Qed.

Lemma get_embedding_requests_prefix contents (w : World) :
  requests (trace (get_embedding predict contents w))
    `prefix_of` batches_of contents.
Proof. eapply loop_trace_requests_prefix, get_embedding_trace. Qed.

Section WellBehavedEndpoint.

(** [R s v]: [v] is a vector the endpoint produced for the string [s]. *)
Variable R : string -> Value -> Prop.
(** The states in which the endpoint serves requests. *)
Variable good : World -> Prop.

(** On a request of 1 to 150 strings the endpoint answers with one entry
    per string, in the order submitted, each carrying an embedding. *)
Hypothesis endpoint_ok : forall batch w,
  good w -> 0 < length batch <= max_batch_size ->
  exists r w',
    predict endpoint_name batch w = (inr r, w')
    /\ good w'
    /\ Forall2 (fun s e => exists v, e !! "embedding"%string = Some v /\ R s v)
         batch (data r).

Lemma get_embeddings_ok batch w :
  good w -> 0 < length batch <= max_batch_size ->
  exists vs r w',
    get_embeddings predict batch w
    = (inr vs, w', [Request endpoint_name batch; Reply r])
    /\ good w' /\ Forall2 R batch vs
    /\ length (data r) = length batch
    /\ Forall2 (fun e v => e !! "embedding"%string = Some v) (data r) vs.
Proof.
  intros Hw Hb. destruct (endpoint_ok batch w Hw Hb) as (r & w' & Hp & Hw' & HF).
  destruct (get_embeddings_run predict batch w)
    as [(e & w1 & Hp1 & _) | [(r1 & w1 & Hp1 & HE & _) | (r1 & w1 & vs & Hp1 & HF1 & Hrun)]];
    rewrite Hp in Hp1; simplify_eq.
  - exfalso. apply Exists_exists in HE as (e & He & Hnone).
    apply list_elem_of_lookup in He as [j Hj].
    destruct (Forall2_lookup_r _ _ _ _ _ HF Hj) as (s & _ & v & Hv & _).
    congruence.
  - exists vs, r1, w1. split_and!; [done..| |by symmetry; eapply Forall2_length|done].
    apply Forall2_same_length_lookup. split.
    + by rewrite (Forall2_length _ _ _ HF), (Forall2_length _ _ _ HF1).
    + intros j s v Hs Hv.
      destruct (Forall2_lookup_l _ _ _ _ _ HF Hs) as (e & He & v' & Hv' & HR).
      destruct (Forall2_lookup_l _ _ _ _ _ HF1 He) as (v'' & Hv'' & Hget).
      by simplify_eq.
Qed.

Lemma for_batches_ok bs acc w :
  Forall (fun b => 0 < length b <= max_batch_size) bs -> good w ->
  exists vs w' tr,
    for_batches predict bs acc w = (inr (acc ++ vs), w', tr)
    /\ good w'
    /\ Forall2 R (concat bs) vs
    /\ Forall2 (fun b r => length (data r) = length b) bs (replies tr)
    /\ Forall2 (fun e v => e !! "embedding"%string = Some v)
         (concat (data <$> replies tr)) vs.
Proof.
  intros Hbs. revert acc w. induction Hbs as [|b bs Hb Hbs IH]; intros acc w Hw; simpl.
  - exists [], w, []. rewrite app_nil_r. split_and!; [done..|constructor|constructor|constructor].
  - unfold mbind, M_bind, Py.tolist.
    destruct (get_embeddings_ok b w Hw Hb) as (vs & r & w1 & -> & Hw1 & HF & HL & HE).
    destruct (IH (acc ++ vs) w1 Hw1) as (vs' & w2 & tr & -> & Hw2 & HF' & HL' & HE').
    exists (vs ++ vs'), w2, ([Request endpoint_name b; Reply r] ++ tr).
    rewrite (assoc_L (++)). split_and!; [done..| | |].
    + by apply Forall2_app.
    + simpl. by constructor.
    + simpl. by apply Forall2_app.
Qed.

(** C1. With an endpoint that answers every request with one vector per
    submitted string, in submission order, [get_embedding] returns, and
    what it returns has one vector per chunk: as many vectors as chunks,
    the vector at position [i] being the one the endpoint produced for
    the chunk at position [i].  That vector is the embedding of entry
    [i mod 150] of the reply to request number [i / 150], the place the
    chunk had in the batch it travelled in. *)
Theorem get_embedding_preserves_order contents w :
  good w ->
  exists out w' tr,
    get_embedding predict contents w = (inr out, w', tr)
    /\ length out = length contents
    /\ forall i s, contents !! i = Some s ->
         exists v, out !! i = Some v /\ R s v
           /\ exists r e,
                replies tr !! (i / 150) = Some r
                /\ data r !! (i mod 150) = Some e
                /\ e !! "embedding"%string = Some v.
Proof.
  intros Hw. rewrite get_embedding_unfold.
  destruct (for_batches_ok (batches_of contents) [] w
              (batches_of_Forall_size contents) Hw)
    as (vs & w' & tr & Hrun & _ & HF & HL & HE).
  rewrite batches_of_concat in HF. exists vs, w', tr.
  split_and!; [done| symmetry; by eapply Forall2_length |].
  intros i s Hs. destruct (Forall2_lookup_l _ _ _ _ _ HF Hs) as (v & Hv & HR).
  exists v. split_and!; [done..|].
  destruct (Forall2_lookup_r _ _ _ _ _ HE Hv) as (e & He & Hev).
  rewrite (concat_lookup_uniform _ 150) in He; [|lia| |].
  - apply bind_Some in He as (l & Hl & He).
    rewrite list_lookup_fmap in Hl. apply fmap_Some in Hl as (r & Hr & ->).
    by exists r, e.
  - apply Forall_fmap, Forall_lookup. intros k r Hr. simpl.
    destruct (Forall2_lookup_r _ _ _ _ _ HL Hr) as (b & Hb & ->).
    by apply batches_of_size in Hb as [[_ ?] _].
  - intros k l Hl HS. rewrite list_lookup_fmap in Hl.
    apply fmap_Some in Hl as (r & Hr & ->).
    destruct (Forall2_lookup_r _ _ _ _ _ HL Hr) as (b & Hb & ->).
    apply batches_of_size in Hb as [_ Hfull]. apply Hfull.
    by rewrite length_fmap, <- (Forall2_length _ _ _ HL) in HS.
Qed.

End WellBehavedEndpoint.

(** C2. The 150-wide slices of a sequence of [L] chunks are [ceil(L/150)]
    contiguous batches: the [k]-th one holds positions [150k] to
    [150k+149], none is larger than 150 and only the last may be smaller,
    and put end to end they are the input again, nothing moved, dropped
    or repeated.  The requests of a run are batches, in order and one
    each; a run that returns has issued all [ceil(L/150)] of them. *)
Theorem get_embedding_batches_and_calls contents :
  length (batches_of contents) = Py.ceil_div (length contents) 150
  /\ concat (batches_of contents) = contents
  /\ (forall k b, batches_of contents !! k = Some b ->
        b = take 150 (drop (k * 150) contents)
        /\ length b <= 150
        /\ (S k < length (batches_of contents) -> length b = 150))
  /\ (forall w, requests (trace (get_embedding predict contents w))
                  `prefix_of` batches_of contents)
  /\ (forall w out w' tr,
        get_embedding predict contents w = (inr out, w', tr) ->
        requests tr = batches_of contents
        /\ length (requests tr) = Py.ceil_div (length contents) 150).
Proof.
  split_and!.
  - apply batches_of_length.
  - apply batches_of_concat.
  - intros k b Hk. pose proof (batches_of_size _ _ _ Hk) as [[_ Hle] Hfull].
    split_and!; [|done..].
    rewrite batches_of_lookup in Hk. case_decide; by simplify_eq.
  - apply get_embedding_requests_prefix.
  - intros w out w' tr Hrun.
    pose proof (get_embedding_trace contents w) as Htr.
    rewrite Hrun in Htr. simpl in Htr.
    apply loop_trace_requests_all in Htr. rewrite Htr.
    split; [done|]. apply batches_of_length.
Qed.

(** C3. When a request fails, the exception is what [get_embedding] ends
    with, so no output sequence exists; the failed request is the last
    thing the run did, it is the only failure, and the requests issued
    are batches taken once each in order, the failed one last: nothing is
    submitted again and nothing follows. *)
Theorem get_embedding_propagates_failure contents w e :
  Failure e ∈ trace (get_embedding predict contents w) ->
  result (get_embedding predict contents w) = inl (PredictError e)
  /\ exists tr0 batch,
       trace (get_embedding predict contents w)
       = tr0 ++ [Request endpoint_name batch; Failure e]
       /\ batch ∈ batches_of contents
       /\ failures tr0 = []
       /\ requests (trace (get_embedding predict contents w))
          = requests tr0 ++ [batch]
       /\ requests tr0 ++ [batch] `prefix_of` batches_of contents.
Proof.
  intros Hin. pose proof (get_embedding_trace contents w) as Htr.
  pose proof (get_embedding_requests_prefix contents w) as Hpre.
  destruct (loop_trace_failure _ _ _ _ Htr Hin)
    as (Ho & tr0 & b & Heq & Hb & Hf & Hr).
  split.
  - destruct (result (get_embedding predict contents w)); by simplify_eq/=.
  - exists tr0, b. rewrite Hr in Hpre. by split_and!.
Qed.

(** C4. 151 chunks make two batches, the first 150 chunks and then the
    last one; a run that returns has sent exactly these two requests, in
    that order, each answered before anything else happened. *)
Theorem get_embedding_151_chunks contents :
  length contents = 151 ->
  batches_of contents = [take 150 contents; drop 150 contents]
  /\ length (take 150 contents) = 150
  /\ length (drop 150 contents) = 1
  /\ (forall w, requests (trace (get_embedding predict contents w))
                  `prefix_of` [take 150 contents; drop 150 contents])
  /\ (forall w out w' tr,
        get_embedding predict contents w = (inr out, w', tr) ->
        requests tr = [take 150 contents; drop 150 contents]
        /\ exists r1 r2,
             tr = [Request endpoint_name (take 150 contents); Reply r1;
                   Request endpoint_name (drop 150 contents); Reply r2]).
Proof.
  intros HL.
  assert (batches_of contents = [take 150 contents; drop 150 contents]) as Hb.
  { rewrite batches_of_unfold, HL. change (Py.ceil_div 151 max_batch_size) with 2.
    simpl. unfold max_batch_size. f_equal. f_equal.
    apply take_ge. rewrite length_drop. lia. }
  split_and!.
  - done.
  - rewrite length_take. lia.
  - rewrite length_drop. lia.
  - intros w. rewrite <- Hb. apply get_embedding_requests_prefix.
  - intros w out w' tr Hrun.
    pose proof (get_embedding_trace contents w) as Htr.
    rewrite Hrun, Hb in Htr. simpl in Htr.
    split.
    + by apply loop_trace_requests_all in Htr.
    + inversion Htr as [|? ? r1 tr1 ? Htr1| |]; subst.
      inversion Htr1 as [|? ? r2 tr2 ? Htr2| |]; subst.
      inversion Htr2; subst. by exists r1, r2.
Qed.

(** C7. In the trace of a run no request is issued while another one is
    outstanding, and the request for the batch after the [k]-th one is the
    event right behind the reply to the [k]-th request. *)
Theorem get_embedding_calls_sequential contents w :
  sequential (trace (get_embedding predict contents w)) = true
  /\ forall k b,
       requests (trace (get_embedding predict contents w)) !! S k = Some b ->
       batches_of contents !! S k = Some b
       /\ exists r,
            trace (get_embedding predict contents w) !! (2 * k + 1)
            = Some (Reply r)
            /\ trace (get_embedding predict contents w) !! (2 * k + 2)
               = Some (Request endpoint_name b).
Proof.
  pose proof (get_embedding_trace contents w) as Htr.
  split.
  - by eapply loop_trace_sequential.
  - intros k b Hk. split.
    + by eapply prefix_lookup_Some, get_embedding_requests_prefix.
    + by eapply loop_trace_positions.
Qed.

(** C8. On no chunks at all [get_embedding] returns the empty sequence,
    with no request issued and the endpoint left as it was. *)
Theorem get_embedding_empty w :
  get_embedding predict [] w = (inr [], w, []).
Proof. reflexivity. Qed.

(** C9. No batch is empty, so no request ever carries an empty input
    list, and every batch that is not the last one holds exactly 150
    chunks; a non-empty input has at least one batch. *)
Theorem get_embedding_batches_nonempty contents :
  Forall (fun b => b <> []) (batches_of contents)
  /\ (forall w, Forall (fun b => b <> [])
                  (requests (trace (get_embedding predict contents w))))
  /\ (forall k b, batches_of contents !! k = Some b ->
        S k < length (batches_of contents) -> length b = 150)
  /\ (contents <> [] -> batches_of contents <> []).
Proof.
  assert (Forall (fun b : list string => b <> []) (batches_of contents)) as Hne.
  { eapply Forall_impl; [apply batches_of_Forall_size|].
    intros b [Hpos _] ->. simpl in Hpos. lia. }
  split_and!.
  - done.
  - intros w. destruct (get_embedding_requests_prefix contents w) as [rest Hrest].
    rewrite Hrest in Hne. by apply Forall_app in Hne as [? _].
  - intros k b Hk HS. by apply batches_of_size in Hk as [_ ->].
  - intros Hc Hb. pose proof (batches_of_concat contents) as Hcat.
    rewrite Hb in Hcat. by simplify_eq/=.
Qed.

End EmbedderContract.

(** ** The chunker's contract *)

Section ChunkerContract.

Context {LibExn Node Other : Type}.
Variable extract_doc_text : list byte -> LibExn + string.
Variable get_nodes_from_documents : splitter -> list document -> LibExn + list Node.
Variable text : Node -> string.

Local Abbreviation read_as_chunk' :=
  (read_as_chunk (Other:=Other) extract_doc_text get_nodes_from_documents text).
Local Abbreviation extract_and_split' :=
  (extract_and_split extract_doc_text get_nodes_from_documents text).

(** [apply] is positionwise: an output element is [f] of the input element
    at the same position. *)
Lemma apply_lookup {A B : Type} (f : A -> LibExn + B) (x : list A) (y : list B) j :
  apply f x = inr y ->
  (forall b, y !! j = Some b -> exists a, x !! j = Some a /\ f a = inr b)
  /\ (forall a, x !! j = Some a -> exists b, y !! j = Some b /\ f a = inr b).
Proof.
  revert y j. induction x as [|a x IH]; intros y j; simpl.
  - intros [= <-]. split; intros ? Hl; by rewrite lookup_nil in Hl.
  - destruct (f a) as [e|b] eqn:Hfa; [done|].
    destruct (apply f x) as [e|bs] eqn:Hfx; [done|].
    intros [= <-]. destruct j as [|j]; simpl.
    + split; intros ? [= <-]; eauto.
    + by apply IH.
Qed.

Lemma apply_total {A B : Type} (f : A -> LibExn + B) (x : list A) :
  Forall (fun a => exists b, f a = inr b) x -> exists y, apply f x = inr y.
Proof.
  induction 1 as [|a x [b Hb] _ [y Hy]]; simpl.
  - by exists [].
  - rewrite Hb, Hy. by exists (b :: y).
Qed.

(** The [i]-th Series yielded is [apply f] of the [i]-th Series received. *)
Lemma for_yield_lookup f (xs : list (list (list byte))) i y :
  yielded (for_yield (LibExn:=LibExn) f xs) !! i = Some y ->
  exists x, xs !! i = Some x /\ apply f x = inr y.
Proof.
  revert i. induction xs as [|x xs IH]; intros i; simpl.
  - by rewrite lookup_nil.
  - destruct (apply f x) as [e|y0] eqn:Hx; simpl.
    + by rewrite lookup_nil.
    + destruct i as [|i]; simpl.
      * intros [= <-]. eauto.
      * apply IH.
Qed.

Lemma for_yield_total f (xs : list (list (list byte))) :
  Forall (Forall (fun b => exists c, f b = inr c)) xs ->
  raised (for_yield (LibExn:=LibExn) f xs) = None
  /\ length (yielded (for_yield f xs)) = length xs.
Proof.
  induction 1 as [|x xs Hx _ [IH1 IH2]]; simpl; [done|].
  destruct (apply_total f x Hx) as [y ->]. simpl. by rewrite IH1, IH2.
Qed.

Lemma for_yield_at_position f (xs : list (list (list byte))) i j c :
  at_position (yielded (for_yield (LibExn:=LibExn) f xs)) i j = Some c ->
  exists b, at_position xs i j = Some b /\ f b = inr c.
Proof.
  unfold at_position. intros H.
  apply bind_Some in H as (y & Hy & Hc).
  apply for_yield_lookup in Hy as (x & Hx & Happ).
  destruct (apply_lookup f x y j Happ) as [Hback _].
  destruct (Hback c Hc) as (b & Hb & Hfb).
  exists b. rewrite Hx. simpl. done.
Qed.

(** Whatever the process state was, the invocation works with the llama
    tokenizer it has just installed. *)
Lemma read_as_chunk_unfold batch_iter (p : process Other) :
  read_as_chunk' batch_iter p
  = (for_yield (extract_and_split' llama_splitter) batch_iter,
     set_global_tokenizer (Pretrained llama_tokenizer_name) p).
Proof. reflexivity. Qed.

(** If no document of the collection is rejected, chunks come out for
    every one of them. *)
Lemma read_as_chunk_total batch_iter (p : process Other) :
  Forall (Forall (fun b => exists c, extract_and_split' llama_splitter b = inr c))
    batch_iter ->
  raised (read_as_chunk' batch_iter p).1 = None
  /\ forall i j b, at_position batch_iter i j = Some b ->
       exists c, at_position (yielded (read_as_chunk' batch_iter p).1) i j = Some c.
Proof.
  intros Hall. rewrite read_as_chunk_unfold. simpl.
  destruct (for_yield_total _ _ Hall) as [Hnone Hlen]. split; [done|].
  intros i j b Hb. unfold at_position in *.
  apply bind_Some in Hb as (x & Hx & Hb).
  destruct (yielded (for_yield (extract_and_split' llama_splitter) batch_iter) !! i)
    as [y|] eqn:Hy.
  - simpl. apply for_yield_lookup in Hy as (x' & Hx' & Happ).
    simplify_eq. destruct (apply_lookup _ _ _ j Happ) as [_ Hfwd].
    destruct (Hfwd b Hb) as (c & Hc & _). eauto.
  - apply lookup_ge_None in Hy. apply lookup_lt_Some in Hx. lia.
Qed.

(** C10. The chunks that come out for a document are those of that
    document's bytes alone: put the same bytes anywhere in two
    collections, run each collection in any process state, and wherever
    chunks come out for it in both runs they are the same list, namely
    [extract_and_split] of the bytes. *)
Theorem read_as_chunk_document_independent
    (xs ys : list (list (list byte))) (p q : process Other)
    (i j i' j' : nat) (b : list byte) (c c' : list string) :
  at_position xs i j = Some b ->
  at_position ys i' j' = Some b ->
  at_position (yielded (read_as_chunk' xs p).1) i j = Some c ->
  at_position (yielded (read_as_chunk' ys q).1) i' j' = Some c' ->
  c = c' /\ extract_and_split' llama_splitter b = inr c.
Proof.
  intros Hx Hy Hc Hc'. rewrite read_as_chunk_unfold in Hc, Hc'. simpl in Hc, Hc'.
  apply for_yield_at_position in Hc as (b1 & Hb1 & Hf1).
  apply for_yield_at_position in Hc' as (b2 & Hb2 & Hf2).
  simplify_eq. split; congruence.
Qed.

End ChunkerContract.

(** ** Runs on the sample collaborators *)

Section SampleRuns.

Import Sample.

Lemma length_endpoint_ok (batch : list string) (w : nat) :
  True -> 0 < length batch <= max_batch_size ->
  exists r w',
    length_endpoint endpoint_name batch w = (inr r, w')
    /\ True
    /\ Forall2 (fun s e => exists v, e !! "embedding"%string = Some v
                                     /\ v = String.length s)
         batch (data r).
Proof.
  intros _ _. eexists _, _. split; [reflexivity|]. split; [done|]. simpl.
  induction batch as [|s batch IH]; constructor; [|done].
  exists (String.length s). split; [apply lookup_singleton_eq | done].
Qed.

Lemma get_embedding_preserves_order_witness :
  exists out w' tr,
    get_embedding length_endpoint (chunks 151) 0 = (inr out, w', tr)
    /\ length out = length (chunks 151)
    /\ forall i s, chunks 151 !! i = Some s ->
         exists v, out !! i = Some v /\ v = String.length s
           /\ exists r e,
                replies tr !! (i / 150) = Some r
                /\ data r !! (i mod 150) = Some e
                /\ e !! "embedding"%string = Some v.
Proof.
  exact (get_embedding_preserves_order length_endpoint
           (fun s v => v = String.length s) (fun _ => True)
           length_endpoint_ok (chunks 151) 0 I).
Defined.

Lemma get_embedding_batches_and_calls_witness :
  requests (trace (get_embedding length_endpoint (chunks 301) 0))
  = batches_of (chunks 301)
  /\ length (requests (trace (get_embedding length_endpoint (chunks 301) 0)))
     = Py.ceil_div (length (chunks 301)) 150.
Proof.
  refine (proj2 (proj2 (proj2 (proj2
            (get_embedding_batches_and_calls length_endpoint (chunks 301)))))
            0 ((fun i => i mod 7) <$> seq 0 301) _ _ (run_returns _ _ _)).
  vm_compute. reflexivity.
Defined.

Lemma get_embedding_propagates_failure_witness :
  result (get_embedding (flaky_endpoint 1) (chunks 151) 0)
  = inl (PredictError "503"%string)
  /\ exists tr0 batch,
       trace (get_embedding (flaky_endpoint 1) (chunks 151) 0)
       = tr0 ++ [Request endpoint_name batch; Failure "503"%string]
       /\ batch ∈ batches_of (chunks 151)
       /\ failures tr0 = []
       /\ requests (trace (get_embedding (flaky_endpoint 1) (chunks 151) 0))
          = requests tr0 ++ [batch]
       /\ requests tr0 ++ [batch] `prefix_of` batches_of (chunks 151).
Proof.
  apply get_embedding_propagates_failure.
  apply (list_elem_of_lookup_2 _ 3). vm_compute. reflexivity.
Defined.

Lemma get_embedding_151_chunks_witness :
  length (chunks 151) = 151
  /\ batches_of (chunks 151) = [take 150 (chunks 151); drop 150 (chunks 151)]
  /\ exists r1 r2,
       trace (get_embedding length_endpoint (chunks 151) 0)
       = [Request endpoint_name (take 150 (chunks 151)); Reply r1;
          Request endpoint_name (drop 150 (chunks 151)); Reply r2].
Proof.
  assert (length (chunks 151) = 151) as HL by (vm_compute; reflexivity).
  destruct (get_embedding_151_chunks length_endpoint (chunks 151) HL)
    as (Hb & _ & _ & _ & Hrun).
  split; [exact HL|]. split; [exact Hb|].
  refine (proj2 (Hrun 0 ((fun i => i mod 7) <$> seq 0 151) _ _
                   (run_returns _ _ _))).
  vm_compute. reflexivity.
Defined.

(** C5 does not hold as stated: started in a process where no global
    tokenizer is set, an invocation on one document leaves the llama
    tokenizer installed process-wide. *)
Lemma read_as_chunk_mutates_process :
  global_tokenizer fresh_process = None
  /\ global_tokenizer
       (read_as_chunk parse_bytes whole_documents id [[doc_hi]] fresh_process).2
     = Some (Pretrained "hf-internal-testing/llama-tokenizer"%string)
  /\ (read_as_chunk parse_bytes whole_documents id [[doc_hi]] fresh_process).2
     <> fresh_process.
Proof. split_and!; [reflexivity | reflexivity | discriminate]. Qed.

Lemma read_as_chunk_document_independent_witness :
  at_position
    (yielded (read_as_chunk parse_bytes whole_documents id
                [[doc_ok; doc_hi]] fresh_process).1) 0 1
  = Some ["hi"%string]
  /\ at_position
       (yielded (read_as_chunk parse_bytes whole_documents id
                   [[doc_no]; [doc_hi; doc_ok]] used_process).1) 1 0
     = Some ["hi"%string]
  /\ ["hi"%string] = ["hi"%string]
  /\ extract_and_split parse_bytes whole_documents id llama_splitter doc_hi
     = inr ["hi"%string].
Proof.
  split; [reflexivity|]. split; [reflexivity|].
  apply (read_as_chunk_document_independent parse_bytes whole_documents id
           [[doc_ok; doc_hi]] [[doc_no]; [doc_hi; doc_ok]]
           fresh_process used_process 0 1 1 0 doc_hi);
    reflexivity.
Defined.

End SampleRuns.

(** * Further facts *)

(** ** More on the embedder *)

Section EmbedderMore.

Context {Value World RemoteExn : Type}.
Variable predict :
  string -> list string -> World -> (RemoteExn + response Value) * World.

Implicit Types contents : list string.

Local Abbreviation lacks_embedding :=
  (fun e : gmap string Value => e !! "embedding"%string = None).

Lemma ceil_div_exact n s : 0 < s -> Py.ceil_div (n * s) s = n.
Proof.
  intros Hs. unfold Py.ceil_div.
  replace (n * s + s - 1) with (n * s + (s - 1)) by lia.
  rewrite Nat.div_add_l by lia. rewrite Nat.div_small by lia. lia.
Qed.

Lemma ceil_div_one a s : 0 < a <= s -> Py.ceil_div a s = 1.
Proof.
  intros [Ha Hs]. rewrite ceil_div_step by lia.
  replace (a - s) with 0 by lia. rewrite ceil_div_0 by lia. done.
Qed.

Lemma batches_of_small contents :
  0 < length contents <= 150 -> batches_of contents = [contents].
Proof.
  intros HL. rewrite batches_of_unfold.
  rewrite (ceil_div_one (length contents) max_batch_size) by done.
  simpl. f_equal. apply take_ge. unfold max_batch_size. lia.
Qed.

(** X1. An input of 1 to 150 chunks is one batch, the input itself, and
    every run issues exactly one request, carrying the whole input,
    however that request ends. *)
Theorem get_embedding_single_request contents w :
  0 < length contents <= 150 ->
  batches_of contents = [contents]
  /\ requests (trace (get_embedding predict contents w)) = [contents]
  /\ exists completion,
       trace (get_embedding predict contents w)
       = [Request endpoint_name contents; completion].
Proof.
  intros HL. pose proof (batches_of_small contents HL) as Hb.
  pose proof (get_embedding_trace predict contents w) as Htr. rewrite Hb in Htr.
  split; [done|].
  inversion Htr as [|? ? r tr' ? Htr' Heq1 Heq2| |]; simplify_eq.
  - inversion Htr'; simplify_eq. split; [done|]. by eexists.
  - split; [done|]. by eexists.
  - split; [done|]. by eexists.
Qed.

(** X2. When the number of chunks is a multiple of 150 no short batch is
    left over: [n * 150] chunks make exactly [n] batches of 150 each. *)
Theorem batches_of_exact_multiple contents n :
  length contents = n * 150 ->
  length (batches_of contents) = n
  /\ Forall (fun b => length b = 150) (batches_of contents).
Proof.
  intros HL. split.
  - rewrite batches_of_length, HL. apply ceil_div_exact. unfold max_batch_size. lia.
  - apply Forall_lookup. intros k b Hk.
    rewrite batches_of_lookup, HL, ceil_div_exact in Hk
      by (unfold max_batch_size; lia).
    case_decide; [|done]. simplify_eq.
    rewrite length_take, length_drop. unfold max_batch_size. nia.
Qed.

Lemma for_batches_returns bs acc w out w' tr :
  for_batches predict bs acc w = (inr out, w', tr) ->
  exists vs, out = acc ++ vs
    /\ Forall2 (fun e v => e !! "embedding"%string = Some v)
         (concat (data <$> replies tr)) vs.
Proof.
  revert acc w out w' tr. induction bs as [|b bs IH]; intros acc w out w' tr; simpl.
  - intros [= <- <- <-]. exists []. rewrite app_nil_r. split; [done|constructor].
  - unfold mbind, M_bind, Py.tolist.
    destruct (get_embeddings_run predict b w)
      as [(e & w1 & _ & ->) | [(r & w1 & _ & _ & ->) | (r & w1 & vs & _ & HF & ->)]];
      [done..|].
    destruct (for_batches predict bs (acc ++ vs) w1) as [[res w2] tr2] eqn:Hrest.
    intros [= -> <- <-].
    destruct (IH _ _ _ _ _ Hrest) as (vs' & -> & HF').
    exists (vs ++ vs'). rewrite (assoc_L (++)). split; [done|].
    simpl. by apply Forall2_app.
Qed.

(** X3. [get_embedding] never compares what came back with what it sent.
    When it returns, its output is the embeddings of the entries of the
    replies, reply after reply and entry after entry, so it has as many
    elements as the replies have entries, whatever the number of chunks,
    and one reply came in for each batch. *)
Theorem get_embedding_output_is_replies contents w out w' tr :
  get_embedding predict contents w = (inr out, w', tr) ->
  Forall2 (fun e v => e !! "embedding"%string = Some v)
    (concat (data <$> replies tr)) out
  /\ length out = length (concat (data <$> replies tr))
  /\ length (replies tr) = length (batches_of contents).
Proof.
  intros Hrun. pose proof (get_embedding_trace predict contents w) as Htr.
  rewrite Hrun in Htr. simpl in Htr.
  rewrite get_embedding_unfold in Hrun.
  destruct (for_batches_returns _ _ _ _ _ _ Hrun) as (vs & -> & HF). simpl.
  split_and!; [done | symmetry; by eapply Forall2_length |].
  clear Hrun HF. remember None as o eqn:Ho.
  induction Htr; simplify_eq/=; [done | f_equal; auto].
Qed.

Lemma loop_trace_key_error bs tr k :
  loop_trace (Value:=Value) (RemoteExn:=RemoteExn) bs tr (Some (KeyError k)) ->
  k = "embedding"%string
  /\ exists tr0 b r, tr = tr0 ++ [Request endpoint_name b; Reply r]
       /\ b ∈ bs /\ Exists lacks_embedding (data r) /\ failures tr = [].
Proof.
  intros H. remember (Some (KeyError k)) as o eqn:Ho.
  induction H as [|b bs r tr o H IH|b bs r HE|b bs e']; simplify_eq.
  - destruct (IH eq_refl) as (-> & tr0 & b' & r' & -> & Hb' & HE & Hf).
    split; [done|].
    exists (Request endpoint_name b :: Reply r :: tr0), b', r'.
    split_and!; [done | by apply elem_of_cons; right | done | done].
  - split; [done|]. exists [], b, r.
    split_and!; [done | by apply elem_of_cons; left | done | done].
Qed.

Lemma for_batches_missing bs acc w r :
  Reply r ∈ trace (for_batches predict bs acc w) ->
  Exists lacks_embedding (data r) ->
  result (for_batches predict bs acc w) = inl (KeyError "embedding"%string)
  /\ exists tr0 b,
       trace (for_batches predict bs acc w)
       = tr0 ++ [Request endpoint_name b; Reply r]
       /\ b ∈ bs.
Proof.
  revert acc w. induction bs as [|b bs IH]; intros acc w; simpl.
  - intros Hin. by apply elem_of_nil in Hin.
  - unfold mbind, M_bind, Py.tolist.
    destruct (get_embeddings_run predict b w)
      as [(e & w1 & _ & ->) | [(r1 & w1 & _ & HE & ->) | (r1 & w1 & vs & _ & HF & ->)]].
    + unfold trace. simpl. intros Hin _.
      apply elem_of_cons in Hin as [?|Hin]; [done|].
      apply elem_of_cons in Hin as [?|Hin]; [done|]. by apply elem_of_nil in Hin.
    + unfold trace, result. simpl. intros Hin _.
      apply elem_of_cons in Hin as [?|Hin]; [done|].
      apply elem_of_cons in Hin as [[= ->]|Hin]; [|by apply elem_of_nil in Hin].
      split; [done|]. exists [], b. split; [done|]. by apply elem_of_cons; left.
    + specialize (IH (acc ++ vs) w1).
      destruct (for_batches predict bs (acc ++ vs) w1) as [[res w2] tr2].
      unfold trace, result in *. simpl in *. intros Hin Hlacks.
      apply elem_of_cons in Hin as [?|Hin]; [done|].
      apply elem_of_cons in Hin as [[= ->]|Hin].
      * exfalso. apply Exists_exists in Hlacks as (e & He & Hnone).
        apply list_elem_of_lookup in He as [j Hj].
        destruct (Forall2_lookup_l _ _ _ _ _ HF Hj) as (v & _ & Hv). congruence.
      * destruct (IH Hin Hlacks) as (-> & tr0 & b' & -> & Hb').
        split; [done|].
        exists (Request endpoint_name b :: Reply r1 :: tr0), b'.
        split; [done|]. by apply elem_of_cons; right.
Qed.

(** X4. A reply one of whose entries has no ["embedding"] key ends the
    run: the run raises KeyError for that key and returns nothing, the
    reply is the last event, no request had failed, and no batch after
    the one it answers is requested. *)
Theorem get_embedding_missing_embedding contents w r :
  Reply r ∈ trace (get_embedding predict contents w) ->
  Exists lacks_embedding (data r) ->
  result (get_embedding predict contents w) = inl (KeyError "embedding"%string)
  /\ exists tr0 batch,
       trace (get_embedding predict contents w)
       = tr0 ++ [Request endpoint_name batch; Reply r]
       /\ batch ∈ batches_of contents
       /\ failures (trace (get_embedding predict contents w)) = []
       /\ requests (trace (get_embedding predict contents w))
          `prefix_of` batches_of contents.
Proof.
  intros Hin Hlacks. pose proof (get_embedding_trace predict contents w) as Htr.
  pose proof (get_embedding_requests_prefix predict contents w) as Hpre.
  rewrite get_embedding_unfold in *.
  destruct (for_batches_missing _ _ _ _ Hin Hlacks) as (Hres & tr0 & b & Heq & Hb).
  rewrite Hres in Htr. simpl in Htr.
  destruct (loop_trace_key_error _ _ _ Htr) as (_ & _ & _ & _ & _ & _ & _ & Hf).
  split; [done|]. by exists tr0, b.
Qed.


End EmbedderMore.

(** ** More on the chunker *)

Section ChunkerMore.

Context {LibExn Node Other : Type}.
Variable extract_doc_text : list byte -> LibExn + string.
Variable get_nodes_from_documents : splitter -> list document -> LibExn + list Node.
Variable text : Node -> string.

Local Abbreviation read_as_chunk' :=
  (read_as_chunk (Other:=Other) extract_doc_text get_nodes_from_documents text).
Local Abbreviation split' :=
  (extract_and_split extract_doc_text get_nodes_from_documents text llama_splitter).

Lemma apply_length {A B : Type} (f : A -> LibExn + B) (x : list A) (y : list B) :
  apply f x = inr y -> length y = length x.
Proof.
  revert y. induction x as [|a x IH]; intros y; simpl.
  - by intros [= <-].
  - destruct (f a) as [e|b]; [done|].
    destruct (apply f x) as [e|bs]; [done|].
    intros [= <-]. simpl. f_equal. by apply IH.
Qed.

Lemma apply_inr_Forall2 {A B : Type} (f : A -> LibExn + B) (x : list A) (y : list B) :
  apply f x = inr y <-> Forall2 (fun a b => f a = inr b) x y.
Proof.
  revert y. induction x as [|a x IH]; intros y; simpl.
  - split; [intros [= <-]; constructor | by intros ->%Forall2_nil_inv_l].
  - split.
    + destruct (f a) as [e|b] eqn:Hfa; [done|].
      destruct (apply f x) as [e|bs] eqn:Hfx; [done|].
      intros [= <-]. constructor; [done|]. by apply IH.
    + intros (b & bs & Hb & Hbs & ->)%Forall2_cons_inv_l.
      rewrite Hb. apply IH in Hbs. by rewrite Hbs.
Qed.


Lemma for_yield_length f (xs : list (list (list byte))) :
  length (yielded (for_yield (LibExn:=LibExn) f xs)) <= length xs
  /\ (raised (for_yield f xs) = None ->
      length (yielded (for_yield f xs)) = length xs).
Proof.
  induction xs as [|x xs [IH1 IH2]]; simpl; [done|].
  destruct (apply f x) as [e|y]; simpl; [split; [lia|done]|].
  split; [lia|]. intros H. by rewrite IH2.
Qed.

(** X7. The generator keeps the shape of what it is fed: the Series it
    yields in [i]-th place has one chunk list per document of the [i]-th
    Series it received, it never yields more Series than it received,
    and when no exception ended it, it yielded one for each. *)
Theorem read_as_chunk_shape batch_iter (p : process Other) :
  (forall i y, yielded (read_as_chunk' batch_iter p).1 !! i = Some y ->
     exists x, batch_iter !! i = Some x /\ length y = length x)
  /\ length (yielded (read_as_chunk' batch_iter p).1) <= length batch_iter
  /\ (raised (read_as_chunk' batch_iter p).1 = None ->
      length (yielded (read_as_chunk' batch_iter p).1) = length batch_iter).
Proof.
  rewrite read_as_chunk_unfold. simpl. split_and!.
  - intros i y Hy. apply for_yield_lookup in Hy as (x & Hx & Happ).
    exists x. split; [done|]. by eapply apply_length.
  - apply for_yield_length.
  - apply for_yield_length.
Qed.


Lemma for_yield_raised_None f (xs : list (list (list byte))) :
  raised (for_yield (LibExn:=LibExn) f xs) = None
  <-> Forall (Forall (fun b => exists c, f b = inr c)) xs.
Proof.
  split; [|intros H; exact (proj1 (for_yield_total f xs H))].
  induction xs as [|x xs IH]; simpl; [constructor|].
  destruct (apply f x) as [e|y] eqn:Hx; simpl; [done|].
  intros Hr. constructor; [|by apply IH].
  apply apply_inr_Forall2 in Hx. apply Forall_lookup. intros j b Hb.
  destruct (Forall2_lookup_l _ _ _ _ _ Hx Hb) as (c & _ & Hc). by exists c.
Qed.



End ChunkerMore.

(** ** An invocation of the chunker with its set-up *)

Section ChunkerCallFacts.

Context {LibExn Node Other : Type}.
Variable extract_doc_text : list byte -> LibExn + string.
Variable get_nodes_from_documents : splitter -> list document -> LibExn + list Node.
Variable text : Node -> string.
Variable from_pretrained_raises : string -> option LibExn.
Variable splitter_setup : Other -> Other * option LibExn.

Local Abbreviation call' :=
  (read_as_chunk_call extract_doc_text get_nodes_from_documents text
     from_pretrained_raises splitter_setup).
Local Abbreviation split' :=
  (extract_and_split extract_doc_text get_nodes_from_documents text llama_splitter).

(** The three ways an invocation can go. *)
Lemma read_as_chunk_call_cases batch_iter (p : process Other) :
  (exists e, from_pretrained_raises llama_tokenizer_name = Some e
     /\ call' batch_iter p = (Generated [] (Some e), p))
  \/ (exists e o, from_pretrained_raises llama_tokenizer_name = None
     /\ splitter_setup (other p) = (o, Some e)
     /\ call' batch_iter p
        = (Generated [] (Some e),
           {| global_tokenizer := Some (Pretrained llama_tokenizer_name);
              other := o |}))
  \/ (exists o, from_pretrained_raises llama_tokenizer_name = None
     /\ splitter_setup (other p) = (o, None)
     /\ call' batch_iter p
        = (for_yield split' batch_iter,
           {| global_tokenizer := Some (Pretrained llama_tokenizer_name);
              other := o |})).
Proof.
  unfold read_as_chunk_call.
  destruct (from_pretrained_raises llama_tokenizer_name) as [e|] eqn:Hload.
  - left. by exists e.
  - right. simpl. destruct (splitter_setup (other p)) as [o [e|]] eqn:Hsetup.
    + left. by exists e, o.
    + right. by exists o.
Qed.

(** When both steps of the set-up go through, the invocation yields what
    [read_as_chunk] yields. *)
Lemma read_as_chunk_call_yields batch_iter (p : process Other) o :
  from_pretrained_raises llama_tokenizer_name = None ->
  splitter_setup (other p) = (o, None) ->
  (call' batch_iter p).1
  = (read_as_chunk extract_doc_text get_nodes_from_documents text batch_iter p).1.
Proof.
  intros Hload Hsetup. rewrite read_as_chunk_unfold.
  destruct (read_as_chunk_call_cases batch_iter p)
    as [(e & Hl & _) | [(e & o' & _ & Hs & _) | (o' & _ & _ & ->)]].
  - congruence.
  - congruence.
  - reflexivity.
Qed.

(** C5, amended. An invocation of [read_as_chunk] is not free of side
    effects: unless the tokenizer fails to load, in which case the
    invocation ends with that exception, nothing yielded and the
    process-wide tokenizer as it was, it has set llama_index's
    process-wide tokenizer to the llama tokenizer, whatever was set
    before.  What it yields does not depend on the tokenizer that was set
    process-wide when it started, and once the set-up is through it is a
    function of the documents, the llama tokenizer and the configuration
    (500, 50) alone. *)
Theorem read_as_chunk_call_effect batch_iter (p : process Other) :
  (forall e, from_pretrained_raises llama_tokenizer_name = Some e ->
     (call' batch_iter p).1 = Generated [] (Some e)
     /\ global_tokenizer (call' batch_iter p).2 = global_tokenizer p)
  /\ (from_pretrained_raises llama_tokenizer_name = None ->
      global_tokenizer (call' batch_iter p).2
      = Some (Pretrained llama_tokenizer_name))
  /\ (forall q : process Other, other q = other p ->
      (call' batch_iter q).1 = (call' batch_iter p).1)
  /\ (from_pretrained_raises llama_tokenizer_name = None ->
      (splitter_setup (other p)).2 = None ->
      (call' batch_iter p).1 = for_yield split' batch_iter).
Proof.
  split_and!.
  - intros e He.
    destruct (read_as_chunk_call_cases batch_iter p)
      as [(e' & ? & ->) | [(e' & o & ? & _) | (o & ? & _)]]; by simplify_eq.
  - intros Hload.
    destruct (read_as_chunk_call_cases batch_iter p)
      as [(e' & ? & _) | [(e' & o & _ & _ & ->) | (o & _ & _ & ->)]]; by simplify_eq.
  - intros q Hq.
    destruct (read_as_chunk_call_cases batch_iter p)
      as [(e & Hl & ->) | [(e & o & Hl & Hs & ->) | (o & Hl & Hs & ->)]];
      destruct (read_as_chunk_call_cases batch_iter q)
        as [(e' & Hl' & ->) | [(e' & o' & Hl' & Hs' & ->) | (o' & Hl' & Hs' & ->)]];
      rewrite ?Hq in *; simpl; congruence.
  - intros Hload Hsetup.
    destruct (read_as_chunk_call_cases batch_iter p)
      as [(e & ? & _) | [(e & o & _ & Hs & _) | (o & _ & _ & ->)]];
      [by simplify_eq | by rewrite Hs in Hsetup | done].
Qed.


(** X9. An invocation never passes over a document: if it runs to the end
    without an exception, then the tokenizer loaded, the splitter was set
    up, one Series was yielded for each Series received, and every
    document has its chunk list, [extract_and_split] of its bytes, at the
    position the document had. *)
Theorem read_as_chunk_call_completes batch_iter (p : process Other) :
  raised (call' batch_iter p).1 = None ->
  from_pretrained_raises llama_tokenizer_name = None
  /\ (splitter_setup (other p)).2 = None
  /\ length (yielded (call' batch_iter p).1) = length batch_iter
  /\ forall i j b, at_position batch_iter i j = Some b ->
       exists c, at_position (yielded (call' batch_iter p).1) i j = Some c
                 /\ split' b = inr c.
Proof.
  destruct (read_as_chunk_call_cases batch_iter p)
    as [(e' & Hl & ->) | [(e' & o & Hl & Hs & ->) | (o & Hl & Hs & ->)]]; simpl;
    [done..|].
  intros Hr. rewrite Hs. split_and!; [done..| |].
  - by apply for_yield_length.
  - intros i j b Hb. apply for_yield_raised_None in Hr.
    destruct (read_as_chunk_total extract_doc_text get_nodes_from_documents text
                batch_iter p Hr) as [_ Hpos].
    destruct (Hpos i j b Hb) as [c Hc]. rewrite read_as_chunk_unfold in Hc.
    simpl in Hc. exists c. split; [done|].
    apply for_yield_at_position in Hc as (b' & Hb' & Hfb). by simplify_eq.
Qed.

End ChunkerCallFacts.

(** ** The reset cell *)

Section ResetFacts.

Import Reset.

(** X11. Whichever of its two choices the ['Reset'] widget holds, the
    cell drops both tables and touches no other: ['False'] is a non-empty
    string, so [bool('False')] is true like [bool('True')]. *)
Theorem reset_cell_drops_for_every_choice (reset : string) (tables : gset string) :
  reset ∈ choices ->
  reset_cell reset tables
  = tables ∖ {[ "pdf_raw_text"%string; "pdf_documentation_text"%string ]}.
Proof.
  intros Hin. unfold choices in Hin.
  assert (bool_of_str reset = true) as Hb.
  { apply elem_of_cons in Hin as [->|Hin]; [done|].
    apply elem_of_cons in Hin as [->|Hin]; [done|].
    by apply elem_of_nil in Hin. }
  unfold reset_cell, drop_table_if_exists, table_name. rewrite Hb.
  clear. apply set_eq. intros t.
  rewrite !elem_of_difference, elem_of_union, !elem_of_singleton. tauto.
Qed.

End ResetFacts.

(** ** More runs on the sample collaborators *)

Section MoreSampleRuns.

Import Sample.

Lemma get_embedding_single_request_witness :
  batches_of (chunks 10) = [chunks 10]
  /\ requests (trace (get_embedding (flaky_endpoint 0) (chunks 10) 0)) = [chunks 10]
  /\ exists completion,
       trace (get_embedding (flaky_endpoint 0) (chunks 10) 0)
       = [Request endpoint_name (chunks 10); completion].
Proof.
  apply get_embedding_single_request.
  change (0 < 10 <= 150). lia.
Defined.

Lemma batches_of_exact_multiple_witness :
  length (batches_of (chunks 300)) = 2
  /\ Forall (fun b => length b = 150) (batches_of (chunks 300)).
Proof.
  apply batches_of_exact_multiple. vm_compute. reflexivity.
Defined.

Lemma get_embedding_output_is_replies_witness :
  length (chunks 3) = 3
  /\ result (get_embedding silent_endpoint (chunks 3) 0) = inr []
  /\ Forall2 (fun e v => e !! "embedding"%string = Some v)
       (concat (data <$> replies (trace (get_embedding silent_endpoint (chunks 3) 0))))
       []
  /\ length (@nil nat)
     = length (concat (data <$> replies (trace (get_embedding silent_endpoint (chunks 3) 0))))
  /\ length (replies (trace (get_embedding silent_endpoint (chunks 3) 0)))
     = length (batches_of (chunks 3)).
Proof.
  split; [reflexivity|]. split; [reflexivity|].
  apply (get_embedding_output_is_replies silent_endpoint (chunks 3) 0 []
           (final (get_embedding silent_endpoint (chunks 3) 0))
           (trace (get_embedding silent_endpoint (chunks 3) 0))).
  apply run_returns. reflexivity.
Defined.

Lemma get_embedding_missing_embedding_witness :
  result (get_embedding misnamed_endpoint (chunks 3) 0)
  = inl (KeyError "embedding"%string)
  /\ exists tr0 batch,
       trace (get_embedding misnamed_endpoint (chunks 3) 0)
       = tr0 ++ [Request endpoint_name batch;
                 Reply (Response ((fun s => {[ "vector"%string := String.length s ]})
                                    <$> chunks 3))]
       /\ batch ∈ batches_of (chunks 3)
       /\ failures (trace (get_embedding misnamed_endpoint (chunks 3) 0)) = []
       /\ requests (trace (get_embedding misnamed_endpoint (chunks 3) 0))
          `prefix_of` batches_of (chunks 3).
Proof.
  apply get_embedding_missing_embedding.
  - apply (list_elem_of_lookup_2 _ 1). reflexivity.
  - apply Exists_cons_hd. reflexivity.
Defined.

Lemma read_as_chunk_call_effect_witness :
  global_tokenizer path_process = Some (Tiktoken "gpt-4"%string)
  /\ global_tokenizer
       (read_as_chunk_call parse_bytes whole_documents id hub_reachable
          add_cache_dir [[doc_hi]] path_process).2
     = Some (Pretrained "hf-internal-testing/llama-tokenizer"%string)
  /\ (read_as_chunk_call parse_bytes whole_documents id hub_reachable
        add_cache_dir [[doc_hi]] path_process).1
     = for_yield (extract_and_split parse_bytes whole_documents id llama_splitter)
         [[doc_hi]]
  /\ (read_as_chunk_call parse_bytes whole_documents id hub_unreachable
        add_cache_dir [[doc_hi]] path_process).1
     = Generated [] (Some "offline"%string)
  /\ global_tokenizer
       (read_as_chunk_call parse_bytes whole_documents id hub_unreachable
          add_cache_dir [[doc_hi]] path_process).2
     = global_tokenizer path_process.
Proof.
  destruct (read_as_chunk_call_effect parse_bytes whole_documents id hub_reachable
              add_cache_dir [[doc_hi]] path_process) as (_ & Hset & _ & Hyield).
  destruct (read_as_chunk_call_effect parse_bytes whole_documents id hub_unreachable
              add_cache_dir [[doc_hi]] path_process) as (Hfail & _).
  split; [reflexivity|]. split; [apply Hset; reflexivity|].
  split; [apply Hyield; reflexivity|]. apply Hfail. reflexivity.
Defined.


Lemma read_as_chunk_call_completes_witness :
  hub_reachable llama_tokenizer_name = None
  /\ (add_cache_dir (other path_process)).2 = None
  /\ length (yielded (read_as_chunk_call parse_bytes whole_documents id hub_reachable
                        add_cache_dir [[doc_hi; doc_ok]; [doc_no]] path_process).1)
     = length [[doc_hi; doc_ok]; [doc_no]]
  /\ forall i j b, at_position [[doc_hi; doc_ok]; [doc_no]] i j = Some b ->
       exists c,
         at_position
           (yielded (read_as_chunk_call parse_bytes whole_documents id hub_reachable
                       add_cache_dir [[doc_hi; doc_ok]; [doc_no]] path_process).1)
           i j = Some c
         /\ extract_and_split parse_bytes whole_documents id llama_splitter b = inr c.
Proof.
  apply (read_as_chunk_call_completes parse_bytes whole_documents id
           hub_reachable add_cache_dir [[doc_hi; doc_ok]; [doc_no]] path_process).
  reflexivity.
Defined.


Lemma reset_cell_drops_for_every_choice_witness :
  Reset.reset_cell "False"
    {[ "pdf_raw_text"%string; "pdf_documentation_text"%string; "pdf_archive"%string ]}
  = ({[ "pdf_raw_text"%string; "pdf_documentation_text"%string; "pdf_archive"%string ]} : gset string)
      ∖ {[ "pdf_raw_text"%string; "pdf_documentation_text"%string ]}.
Proof.
  apply reset_cell_drops_for_every_choice.
  apply (list_elem_of_lookup_2 _ 1). reflexivity.
Defined.

End MoreSampleRuns.
